(** * Pool functions of finn-hlslib (pool.hpp)

    A shallow embedding of the four pool function classes of [pool.hpp]
    ([MaxPoolFunction], [AvgPoolFunction], [AccPoolFunction] and
    [QuantAvgPoolFunction]) over the general contract [PoolFunction], and
    the properties their specification states about them.

    Values of the arbitrary-precision integer types [ap_int<W>] and
    [ap_uint<W>] are integers of [Z] inside the range of the type; every
    conversion to such a type wraps around modulo [2^W]. *)

From Stdlib Require Import ZArith NArith List Permutation Lia Bool.
Import ListNotations.
Local Open Scope Z_scope.

(* ================================================================== *)
(** ** Arbitrary-precision integer types *)

(** The template arguments [TA], [TO] and [T] of the pool functions range
    over [ap_int<W>] (signed, two's complement) and [ap_uint<W>]
    (unsigned); [W] is at least one, hence a [positive].  These types come
    from the HLS arbitrary-precision library, outside the repository; the
    operations on them below follow the library's documented arithmetic:
    conversions wrap, the sum is exact before it is converted, the
    division truncates, the right shift of a signed value is arithmetic. *)
Record ap_type : Type := ApType { is_signed : bool; width : positive }.

Definition ap_int (W : positive) : ap_type := ApType true W.
Definition ap_uint (W : positive) : ap_type := ApType false W.

Definition bits (T : ap_type) : Z := Z.pos (width T).

(** Number of distinct values of the type. *)
Definition modulus (T : ap_type) : Z := 2 ^ bits T.

(** Least and greatest value the type represents. *)
Definition min_value (T : ap_type) : Z :=
  if is_signed T then - 2 ^ (bits T - 1) else 0.

Definition max_value (T : ap_type) : Z := min_value T + modulus T - 1.

Definition in_range (T : ap_type) (x : Z) : bool :=
  (min_value T <=? x) && (x <=? max_value T).

(** Conversion of an integer to the type, [T(z)]: the low [W] bits are kept
    and read back with the signedness of [T]. *)
Definition cast (T : ap_type) (z : Z) : Z :=
  (z - min_value T) mod modulus T + min_value T.

(** The C++ type [int]: 32 bits, two's complement. *)
Definition int32 : ap_type := ap_int 32.

(** [a << k] on [int] operands.  The shift is undefined when the count is
    negative or not smaller than the width of [int]; a one shifted into the
    sign bit gives the least [int]. *)
Definition int_shl (a k : Z) : option Z :=
  if (0 <=? k) && (k <? 32) then Some (cast int32 (a * 2 ^ k)) else None.

(** [a >> n] of an arbitrary-precision integer by an [unsigned] count: the
    result has the type of [a]; the shift is arithmetic (the sign bit is
    replicated) for a signed [a] and logical for an unsigned one. *)
Definition ap_shr (T : ap_type) (a : Z) (n : N) : Z :=
  cast T (Z.shiftr a (Z.of_N n)).

(** [a / n] of an arbitrary-precision integer by an [unsigned] divisor: the
    quotient is truncated toward zero and has the width and signedness of
    [a]; there is no quotient for a zero divisor. *)
Definition ap_div (T : ap_type) (a : Z) (n : N) : option Z :=
  match n with
  | N0 => None
  | Npos _ => Some (cast T (Z.quot a (Z.of_N n)))
  end.

(** [a + b] of two values of type [T], converted back to [T]: the sum is
    formed at full precision ([W+1] bits) and the conversion drops the
    carry. *)
Definition ap_add (T : ap_type) (a b : Z) : Z := cast T (a + b).

(* ================================================================== *)
(** ** The capabilities of [activations.hpp] used by the pool functions *)

Module comp.

(** Modelled from the spec: [comp::max<T, T, T>] is declared in
    [activations.hpp], which is not among the sources; it is the
    comparison/maximum primitive [max(a: T, b: T) -> T] over the total
    order of [T]. *)
Definition max (T : ap_type) (a b : Z) : Z := Z.max a b.

(** Modelled from the spec: [comp::add<TA, TA, TA>] is declared in
    [activations.hpp], which is not among the sources; it is the addition
    primitive [add(a: T, b: T) -> T] with two's-complement or unsigned
    wrap-around at the width of [T]. *)
Definition add (T : ap_type) (a b : Z) : Z := cast T (a + b).

End comp.

(* ================================================================== *)
(** ** The pool function classes *)

(** [PoolFunction<TA, TO, size>]: the general contract.  Only [init] has a
    body; [pool] and [activate] are declared and defined by the derived
    classes. *)
Module PoolFunction.

Definition init (TA : ap_type) : Z := cast TA 0.

End PoolFunction.

(** [MaxPoolFunction<T, size>], derived from [PoolFunction<T, T, size>]. *)
Module MaxPoolFunction.

(** [const T T_MIN_VAL = (T(-1)<0)? 1<<(T::width-1) : 0;]  Both branches
    are [int] expressions: the shift is carried out on [int] and its
    result is then converted to [T]. *)
Definition T_MIN_VAL (T : ap_type) : option Z :=
  if cast T (-1) <? 0
  then option_map (cast T) (int_shl 1 (bits T - 1))
  else Some (cast T 0).

Definition init (T : ap_type) : option Z := T_MIN_VAL T.

Definition pool (T : ap_type) (input accu : Z) : Z := comp.max T input accu.

Definition activate (T : ap_type) (accu : Z) : Z := accu.

End MaxPoolFunction.

(** [AvgPoolFunction<TA, TO, size>], derived from
    [PoolFunction<TA, TO, size>]. *)
Module AvgPoolFunction.

Definition init (TA : ap_type) : Z := PoolFunction.init TA.

Definition pool (TA : ap_type) (input accu : Z) : Z := comp.add TA input accu.

(** [return (accu/size);] converted to [TO]. *)
Definition activate (TA TO : ap_type) (size : N) (accu : Z) : option Z :=
  option_map (cast TO) (ap_div TA accu size).

End AvgPoolFunction.

(** [AccPoolFunction<TA, size>], derived from [PoolFunction<TA, TA, size>]. *)
Module AccPoolFunction.

Definition init (TA : ap_type) : Z := PoolFunction.init TA.

Definition pool (TA : ap_type) (input accu : Z) : Z := comp.add TA input accu.

Definition activate (TA : ap_type) (accu : Z) : Z := accu.

End AccPoolFunction.

(** [QuantAvgPoolFunction<TA, TO, size>], derived from
    [PoolFunction<TA, TO, size>]. *)
Module QuantAvgPoolFunction.

Definition init (TA : ap_type) : Z := PoolFunction.init TA.

(** [return input + accu;] converted to [TA]. *)
Definition pool (TA : ap_type) (input accu : Z) : Z := ap_add TA input accu.

(** [return TO(accu>>size);] *)
Definition activate (TA TO : ap_type) (size : N) (accu : Z) : Z :=
  cast TO (ap_shr TA accu size).

End QuantAvgPoolFunction.

(* ================================================================== *)
(** ** The four strategies under one interface, and the window lifecycle *)

(** The three operations of a pool function.  [None] stands for an
    operation without a result: an undefined shift in [init], a division
    by zero in [activate]. *)
Record pool_ops : Type := PoolOps {
  op_init : option Z;
  op_pool : Z -> Z -> Z;
  op_activate : Z -> option Z
}.

Inductive strategy : Type := Max | Average | Accumulate | QuantAverage.

(** The class instantiated for a strategy.  The Max and Accumulate classes
    take one type, which is accumulator and output type at once. *)
Definition instantiate (s : strategy) (TA TO : ap_type) (size : N) : pool_ops :=
  match s with
  | Max =>
      PoolOps (MaxPoolFunction.init TA) (MaxPoolFunction.pool TA)
              (fun accu => Some (MaxPoolFunction.activate TA accu))
  | Average =>
      PoolOps (Some (AvgPoolFunction.init TA)) (AvgPoolFunction.pool TA)
              (AvgPoolFunction.activate TA TO size)
  | Accumulate =>
      PoolOps (Some (AccPoolFunction.init TA)) (AccPoolFunction.pool TA)
              (fun accu => Some (AccPoolFunction.activate TA accu))
  | QuantAverage =>
      PoolOps (Some (QuantAvgPoolFunction.init TA)) (QuantAvgPoolFunction.pool TA)
              (fun accu => Some (QuantAvgPoolFunction.activate TA TO size accu))
  end.

(** A window holds values of the accumulator type. *)
Definition window_of (T : ap_type) (window : list Z) : bool :=
  forallb (in_range T) window.

(** Modelled from the spec: the engine that walks the windows is not among
    the sources; the lifecycle of one window is
    [accu = init(); for each element e: accu = pool(e, accu);
     result = activate(accu)]. *)
Definition fold_pool (pool : Z -> Z -> Z) (window : list Z) (accu : Z) : Z :=
  fold_left (fun a e => pool e a) window accu.

(** Modelled from the spec: the accumulator of a window, [init()] folded
    with [pool] over the elements (the engine is not among the sources). *)
Definition accumulate (F : pool_ops) (window : list Z) : option Z :=
  option_map (fold_pool (op_pool F) window) (op_init F).

(** Modelled from the spec: the output of a window, [activate] applied
    once to the final accumulator (the engine is not among the sources). *)
Definition reduce (F : pool_ops) (window : list Z) : option Z :=
  match accumulate F window with
  | Some accu => op_activate F accu
  | None => None
  end.

(** Sum and maximum of a window, as mathematical integers. *)
Definition window_sum (window : list Z) : Z := fold_right Z.add 0 window.

Definition window_max (x : Z) (rest : list Z) : Z := fold_right Z.max x rest.

(** [m] is the maximum of the elements of [l]. *)
Definition is_maximum (m : Z) (l : list Z) : Prop :=
  In m l /\ forall e, In e l -> e <= m.

(** The types on which the [int] shift of [MaxPoolFunction::init] is
    defined or not evaluated: unsigned types, and signed types of at most
    32 bits. *)
Definition narrow (T : ap_type) : bool :=
  negb (is_signed T) || (width T <=? 32)%positive.

(** Type of the value [activate] returns: the Max and Accumulate classes
    return the accumulator type. *)
Definition output_type (s : strategy) (TA TO : ap_type) : ap_type :=
  match s with
  | Max | Accumulate => TA
  | Average | QuantAverage => TO
  end.

(* ------------------------------------------------------------------ *)
(** *** The operations on small inputs *)

Example max_init_int8 : MaxPoolFunction.init (ap_int 8) = Some (-128).
Proof. reflexivity. Qed.

Example max_init_uint8 : MaxPoolFunction.init (ap_uint 8) = Some 0.
Proof. reflexivity. Qed.

Example max_init_int32 : MaxPoolFunction.init (ap_int 32) = Some (-2147483648).
Proof. reflexivity. Qed.

Example max_init_int33 : MaxPoolFunction.init (ap_int 33) = None.
Proof. reflexivity. Qed.

Example max_reduce_int8 :
  reduce (instantiate Max (ap_int 8) (ap_int 8) 4) [3; -5; 9; 2] = Some 9.
Proof. reflexivity. Qed.

Example avg_reduce_int8 :
  reduce (instantiate Average (ap_int 8) (ap_int 8) 4) [2; 4; 6; 8] = Some 5.
Proof. reflexivity. Qed.

Example avg_reduce_negative :
  reduce (instantiate Average (ap_int 8) (ap_int 8) 2) [-1; -2] = Some (-1).
Proof. reflexivity. Qed.

Example acc_reduce_int8 :
  reduce (instantiate Accumulate (ap_int 8) (ap_int 8) 4) [1; 2; 3; 4] = Some 10.
Proof. reflexivity. Qed.

Example quant_reduce_int8 :
  reduce (instantiate QuantAverage (ap_int 8) (ap_int 8) 2) [4; 8; 12; 16] = Some 10.
Proof. reflexivity. Qed.

Example quant_activate_negative :
  QuantAvgPoolFunction.activate (ap_int 8) (ap_int 8) 1 (-3) = -2.
Proof. reflexivity. Qed.

Example acc_pool_wraps : AccPoolFunction.pool (ap_int 8) 100 100 = -56.
Proof. reflexivity. Qed.

(* ================================================================== *)
(** ** Facts about ranges and conversions *)

Lemma bits_pos (T : ap_type) : 0 < bits T.
Proof. unfold bits; lia. Qed.

Lemma modulus_pos (T : ap_type) : 0 < modulus T.
Proof. unfold modulus. apply Z.pow_pos_nonneg; [lia | pose proof (bits_pos T); lia]. Qed.

Lemma modulus_half (T : ap_type) : modulus T = 2 * 2 ^ (bits T - 1).
Proof.
  unfold modulus. pose proof (bits_pos T) as Hb.
  replace (bits T) with (1 + (bits T - 1)) at 1 by lia.
  rewrite Z.pow_add_r by lia. reflexivity.
Qed.

Lemma half_pos (T : ap_type) : 0 < 2 ^ (bits T - 1).
Proof. apply Z.pow_pos_nonneg; [lia | pose proof (bits_pos T); lia]. Qed.

Lemma min_value_signed (W : positive) : min_value (ap_int W) = - 2 ^ (Z.pos W - 1).
Proof. reflexivity. Qed.

Lemma min_value_unsigned (W : positive) : min_value (ap_uint W) = 0.
Proof. reflexivity. Qed.

Lemma min_value_nonpos (T : ap_type) : min_value T <= 0.
Proof.
  unfold min_value. destruct (is_signed T); [|lia].
  pose proof (half_pos T). lia.
Qed.

Lemma max_value_nonneg (T : ap_type) : 0 <= max_value T.
Proof.
  unfold max_value, min_value. pose proof (modulus_half T). pose proof (half_pos T).
  destruct (is_signed T); lia.
Qed.

Lemma in_range_iff (T : ap_type) (x : Z) :
  in_range T x = true <-> min_value T <= x <= max_value T.
Proof. unfold in_range. rewrite andb_true_iff, !Z.leb_le. tauto. Qed.

Lemma in_range_zero (T : ap_type) : in_range T 0 = true.
Proof.
  apply in_range_iff. pose proof (min_value_nonpos T). pose proof (max_value_nonneg T). lia.
Qed.

Lemma in_range_min (T : ap_type) : in_range T (min_value T) = true.
Proof.
  apply in_range_iff. pose proof (min_value_nonpos T). pose proof (max_value_nonneg T). lia.
Qed.

Lemma cast_in_range (T : ap_type) (z : Z) : in_range T (cast T z) = true.
Proof.
  apply in_range_iff. unfold cast, max_value.
  pose proof (Z.mod_pos_bound (z - min_value T) (modulus T) (modulus_pos T)). lia.
Qed.

Lemma cast_id (T : ap_type) (x : Z) : in_range T x = true -> cast T x = x.
Proof.
  intros H. apply in_range_iff in H. unfold max_value in H. unfold cast.
  rewrite Z.mod_small by lia. lia.
Qed.

Lemma cast_idem (T : ap_type) (z : Z) : cast T (cast T z) = cast T z.
Proof. apply cast_id, cast_in_range. Qed.

Lemma cast_zero (T : ap_type) : cast T 0 = 0.
Proof. apply cast_id, in_range_zero. Qed.

(** Two integers that differ by a multiple of the modulus convert to the
    same value. *)
Lemma cast_congr (T : ap_type) (x y : Z) :
  (x - y) mod modulus T = 0 -> cast T x = cast T y.
Proof.
  intros H. unfold cast. f_equal.
  pose proof (modulus_pos T) as Hm.
  apply Z.mod_divide in H; [|lia]. destruct H as [k Hk].
  replace (x - min_value T) with (y - min_value T + k * modulus T) by lia.
  apply Z.mod_add. lia.
Qed.

Lemma cast_diff (T : ap_type) (z : Z) : (cast T z - z) mod modulus T = 0.
Proof.
  pose proof (modulus_pos T) as Hm. unfold cast.
  rewrite (Z.mod_eq (z - min_value T) (modulus T)) by lia.
  replace (z - min_value T - modulus T * ((z - min_value T) / modulus T) + min_value T - z)
    with ((- ((z - min_value T) / modulus T)) * modulus T) by lia.
  apply Z.mod_mul. lia.
Qed.

Lemma cast_add_l (T : ap_type) (a b : Z) : cast T (cast T a + b) = cast T (a + b).
Proof.
  apply cast_congr. replace (cast T a + b - (a + b)) with (cast T a - a) by lia.
  apply cast_diff.
Qed.

Lemma cast_add_r (T : ap_type) (a b : Z) : cast T (a + cast T b) = cast T (a + b).
Proof. rewrite (Z.add_comm a), cast_add_l. f_equal. lia. Qed.

(* ================================================================== *)
(** ** Folding a window *)

Section Folding.

Variable pool : Z -> Z -> Z.

Lemma fold_pool_nil (a : Z) : fold_pool pool [] a = a.
Proof. reflexivity. Qed.

Lemma fold_pool_cons (e : Z) (w : list Z) (a : Z) :
  fold_pool pool (e :: w) a = fold_pool pool w (pool e a).
Proof. reflexivity. Qed.

Hypothesis pool_comm : forall x y, pool x y = pool y x.
Hypothesis pool_assoc : forall x y z, pool x (pool y z) = pool (pool x y) z.

Lemma pool_swap (x y a : Z) : pool x (pool y a) = pool y (pool x a).
Proof. rewrite !pool_assoc, (pool_comm x y). reflexivity. Qed.

(** A commutative and associative [pool] folds a window and any
    rearrangement of it to the same accumulator. *)
Lemma fold_pool_permutation (w w' : list Z) :
  Permutation w w' -> forall a, fold_pool pool w a = fold_pool pool w' a.
Proof.
  induction 1 as [| e w w' _ IH | e1 e2 w | w1 w2 w3 _ IH12 _ IH23]; intros a.
  - reflexivity.
  - rewrite !fold_pool_cons. apply IH.
  - rewrite !fold_pool_cons. rewrite pool_swap. reflexivity.
  - rewrite IH12. apply IH23.
Qed.

End Folding.

(** Folding with wrap-around addition yields the wrapped sum. *)
Lemma fold_add_sum (T : ap_type) (w : list Z) (a : Z) :
  cast T (fold_pool (fun e acc => cast T (e + acc)) w a) = cast T (a + window_sum w).
Proof.
  revert a. induction w as [| e w IH]; intros a.
  - simpl. f_equal. lia.
  - rewrite fold_pool_cons, IH. simpl. rewrite cast_add_l. f_equal. lia.
Qed.

Lemma fold_add_in_range (T : ap_type) (w : list Z) (a : Z) :
  in_range T a = true ->
  in_range T (fold_pool (fun e acc => cast T (e + acc)) w a) = true.
Proof.
  revert a. induction w as [| e w IH]; intros a Ha.
  - exact Ha.
  - rewrite fold_pool_cons. apply IH, cast_in_range.
Qed.

Lemma fold_add_from_zero (T : ap_type) (w : list Z) :
  fold_pool (fun e acc => cast T (e + acc)) w 0 = cast T (window_sum w).
Proof.
  rewrite <- (cast_id T (fold_pool _ w 0)) by apply fold_add_in_range, in_range_zero.
  rewrite fold_add_sum. reflexivity.
Qed.

(** Folding with the maximum yields the maximum of the start value and the
    elements. *)
Lemma fold_max_window (w : list Z) (a : Z) :
  fold_pool Z.max w a = window_max a w.
Proof.
  revert a. induction w as [| e w IH]; intros a.
  - reflexivity.
  - rewrite fold_pool_cons, IH. unfold window_max. simpl.
    clear IH. revert a e. induction w as [| e' w IHw]; intros a e; simpl.
    + reflexivity.
    + rewrite IHw, !Z.max_assoc. f_equal. apply Z.max_comm.
Qed.

Lemma window_max_is_maximum (x : Z) (rest : list Z) :
  is_maximum (window_max x rest) (x :: rest).
Proof.
  unfold window_max. induction rest as [| e r [Hin Hle]]; simpl.
  - split; [now left | intros e [<- | []]; lia].
  - split.
    + destruct (Z.max_spec e (fold_right Z.max x r)) as [[_ ->] | [_ ->]].
      * destruct Hin as [<- | Hin]; [now left | now right; right].
      * now right; left.
    + intros e' [<- | [<- | Hr]].
      * specialize (Hle x (or_introl eq_refl)). lia.
      * lia.
      * specialize (Hle e' (or_intror Hr)). lia.
Qed.

(** A start value below the first element does not show in the maximum. *)
Lemma window_max_start (a x : Z) (rest : list Z) :
  a <= x -> window_max a (x :: rest) = window_max x rest.
Proof.
  intros Hax. unfold window_max. simpl.
  induction rest as [| e r IH]; simpl.
  - lia.
  - rewrite <- IH. lia.
Qed.

Lemma window_of_cons (T : ap_type) (x : Z) (rest : list Z) :
  window_of T (x :: rest) = true -> in_range T x = true /\ window_of T rest = true.
Proof. unfold window_of. simpl. apply andb_true_iff. Qed.

(* ================================================================== *)
(** ** The start value of the Max strategy *)

Lemma cast_minus_one_signed (W : positive) : cast (ap_int W) (-1) = -1.
Proof.
  apply cast_id, in_range_iff. unfold max_value.
  rewrite (modulus_half (ap_int W)). unfold min_value; simpl is_signed; cbv iota.
  pose proof (half_pos (ap_int W)). lia.
Qed.

Lemma cast_minus_one_unsigned (W : positive) : 0 <= cast (ap_uint W) (-1).
Proof.
  pose proof (cast_in_range (ap_uint W) (-1)) as H.
  apply in_range_iff in H. rewrite min_value_unsigned in H. lia.
Qed.

(** Converting [2^(W-1)] to the signed [W]-bit type gives the least value. *)
Lemma cast_half_signed (W : positive) :
  cast (ap_int W) (2 ^ (Z.pos W - 1)) = - 2 ^ (Z.pos W - 1).
Proof.
  unfold cast. rewrite (modulus_half (ap_int W)). unfold min_value; simpl is_signed.
  cbv iota. change (bits (ap_int W)) with (Z.pos W).
  pose proof (half_pos (ap_int W)) as Hh. change (bits (ap_int W)) with (Z.pos W) in Hh.
  replace (2 ^ (Z.pos W - 1) - - 2 ^ (Z.pos W - 1)) with (1 * (2 * 2 ^ (Z.pos W - 1))) by lia.
  rewrite Z.mod_mul by lia. lia.
Qed.

(** For an unsigned type the start value is zero. *)
Lemma max_init_unsigned (W : positive) : MaxPoolFunction.init (ap_uint W) = Some 0.
Proof.
  unfold MaxPoolFunction.init, MaxPoolFunction.T_MIN_VAL.
  pose proof (cast_minus_one_unsigned W) as H.
  destruct (Z.ltb_spec (cast (ap_uint W) (-1)) 0) as [Hlt | _]; [lia |].
  rewrite cast_zero. reflexivity.
Qed.

(** For a signed type of at most 32 bits the start value is the least
    value of the type. *)
Lemma max_init_signed_narrow (W : positive) :
  (W <= 32)%positive -> MaxPoolFunction.init (ap_int W) = Some (- 2 ^ (Z.pos W - 1)).
Proof.
  intros HW. unfold MaxPoolFunction.init, MaxPoolFunction.T_MIN_VAL.
  rewrite cast_minus_one_signed. change (-1 <? 0) with true. cbv iota.
  unfold int_shl. change (bits (ap_int W)) with (Z.pos W).
  replace ((0 <=? Z.pos W - 1) && (Z.pos W - 1 <? 32)) with true
    by (symmetry; apply andb_true_iff; split; [apply Z.leb_le | apply Z.ltb_lt]; lia).
  cbn [option_map]. rewrite Z.mul_1_l. f_equal.
  destruct (Pos.eq_dec W 32) as [-> | Hne].
  - reflexivity.
  - rewrite (cast_id int32).
    + apply cast_half_signed.
    + apply in_range_iff. change (min_value int32) with (- 2 ^ 31).
      change (max_value int32) with (2 ^ 31 - 1).
      assert (2 ^ (Z.pos W - 1) <= 2 ^ 30) by (apply Z.pow_le_mono_r; lia).
      assert (0 < 2 ^ (Z.pos W - 1)) by (apply Z.pow_pos_nonneg; lia).
      change (2 ^ 30) with 1073741824 in *. change (2 ^ 31) with 2147483648. lia.
Qed.

(** For a signed type of more than 32 bits the shift count is not smaller
    than the width of [int]: the start value is undefined. *)
Lemma max_init_signed_wide (W : positive) :
  (33 <= W)%positive -> MaxPoolFunction.init (ap_int W) = None.
Proof.
  intros HW. unfold MaxPoolFunction.init, MaxPoolFunction.T_MIN_VAL.
  rewrite cast_minus_one_signed. change (-1 <? 0) with true. cbv iota.
  unfold int_shl. change (bits (ap_int W)) with (Z.pos W).
  replace (Z.pos W - 1 <? 32) with false by (symmetry; apply Z.ltb_ge; lia).
  rewrite andb_false_r. reflexivity.
Qed.

(** Whatever [int] the shift produced, its conversion to a signed type of
    more than 32 bits keeps its value, which is above the least value of
    that type. *)
Lemma int_above_wide_min (W : positive) (v : Z) :
  (33 <= W)%positive -> in_range int32 v = true ->
  cast (ap_int W) v = v /\ min_value (ap_int W) < v.
Proof.
  intros HW Hv. apply in_range_iff in Hv.
  change (min_value int32) with (- 2 ^ 31) in Hv.
  change (max_value int32) with (2 ^ 31 - 1) in Hv.
  assert (Hp : 2 ^ 32 <= 2 ^ (Z.pos W - 1)) by (apply Z.pow_le_mono_r; lia).
  change (2 ^ 32) with 4294967296 in Hp. change (2 ^ 31) with 2147483648 in Hv.
  split.
  - apply cast_id, in_range_iff. unfold max_value.
    rewrite (modulus_half (ap_int W)). rewrite min_value_signed.
    change (bits (ap_int W)) with (Z.pos W). lia.
  - rewrite min_value_signed. lia.
Qed.

Lemma max_init_narrow (T : ap_type) :
  narrow T = true -> MaxPoolFunction.init T = Some (min_value T).
Proof.
  destruct T as [[|] W]; unfold narrow; simpl; intros H.
  - apply Pos.leb_le in H. apply (max_init_signed_narrow W H).
  - apply max_init_unsigned.
Qed.

(* ================================================================== *)
(** ** Division and right shift *)

(** The quotient of [Z.quot] is truncated toward zero: its magnitude is the
    floor of the magnitudes and its sign follows the dividend. *)
Lemma quot_truncates (a n : Z) :
  0 < n ->
  Z.abs (Z.quot a n) = Z.abs a / n
  /\ (0 <= a -> 0 <= Z.quot a n) /\ (a <= 0 -> Z.quot a n <= 0).
Proof.
  intros Hn. destruct (Z.le_gt_cases 0 a) as [Ha | Ha].
  - rewrite Z.quot_div_nonneg by lia.
    pose proof (Z.div_pos a n Ha Hn) as Hq.
    rewrite (Z.abs_eq a), (Z.abs_eq (a / n)) by lia.
    repeat split; try lia. intros Ha0. assert (a = 0) as -> by lia.
    rewrite Z.div_0_l by lia. lia.
  - assert (Hq : Z.quot a n = - (- a / n)).
    { replace a with (- (- a)) at 1 by lia.
      rewrite Z.quot_opp_l by lia. rewrite Z.quot_div_nonneg by lia. reflexivity. }
    assert (Hd : 0 <= - a / n) by (apply Z.div_pos; lia).
    rewrite Hq, Z.abs_opp, (Z.abs_eq (- a / n)), (Z.abs_neq a) by lia.
    repeat split; lia.
Qed.

(** For a negative dividend that the divisor does not divide, the truncated
    quotient is one above the floor. *)
Lemma quot_above_floor (a n : Z) :
  0 < n -> a < 0 -> a mod n <> 0 -> Z.quot a n = a / n + 1.
Proof.
  intros Hn Ha Hm.
  replace a with (- (- a)) at 1 by lia.
  rewrite Z.quot_opp_l by lia. rewrite Z.quot_div_nonneg by lia.
  rewrite (Z.div_opp_l_nz a n) by lia. lia.
Qed.

Lemma quot_in_range (T : ap_type) (a n : Z) :
  in_range T a = true -> 0 < n -> in_range T (Z.quot a n) = true.
Proof.
  intros Ha Hn. apply in_range_iff in Ha. apply in_range_iff.
  pose proof (min_value_nonpos T). pose proof (max_value_nonneg T).
  destruct (quot_truncates a n Hn) as (Habs & Hpos & Hneg).
  assert (Hle : Z.abs a / n <= Z.abs a).
  { apply Z.div_le_upper_bound; [lia |]. pose proof (Z.abs_nonneg a). nia. }
  destruct (Z.le_gt_cases 0 a) as [Hsgn | Hsgn].
  - specialize (Hpos Hsgn). rewrite (Z.abs_eq (Z.quot a n)), (Z.abs_eq a) in * by lia. lia.
  - assert (Hq : Z.quot a n <= 0) by (apply Hneg; lia).
    rewrite (Z.abs_neq (Z.quot a n)), (Z.abs_neq a) in * by lia. lia.
Qed.

Lemma ap_div_nonzero (T : ap_type) (a : Z) (n : N) :
  in_range T a = true -> n <> 0%N ->
  ap_div T a n = Some (Z.quot a (Z.of_N n)).
Proof.
  intros Ha Hn. unfold ap_div. destruct n as [| p]; [congruence |].
  rewrite cast_id; [reflexivity |]. apply quot_in_range; [exact Ha | reflexivity].
Qed.

(** An arithmetic right shift is the floor of the division by a power of
    two. *)
Lemma floor_bounds (a m : Z) :
  0 < m -> (a / m) * m <= a < (a / m + 1) * m.
Proof.
  intros Hm. pose proof (Z.div_mod a m ltac:(lia)) as Hdm.
  pose proof (Z.mod_pos_bound a m Hm). nia.
Qed.

Lemma floor_in_range (T : ap_type) (a m : Z) :
  in_range T a = true -> 0 < m -> in_range T (a / m) = true.
Proof.
  intros Ha Hm. apply in_range_iff in Ha. apply in_range_iff.
  pose proof (min_value_nonpos T). pose proof (max_value_nonneg T).
  pose proof (floor_bounds a m Hm). nia.
Qed.

Lemma pow2_pos (n : N) : 0 < 2 ^ Z.of_N n.
Proof. apply Z.pow_pos_nonneg; lia. Qed.

Lemma ap_shr_floor (T : ap_type) (a : Z) (n : N) :
  in_range T a = true -> ap_shr T a n = a / 2 ^ Z.of_N n.
Proof.
  intros Ha. unfold ap_shr. rewrite Z.shiftr_div_pow2 by lia.
  apply cast_id, floor_in_range; [exact Ha | apply pow2_pos].
Qed.

(* ================================================================== *)
(** ** The sum-based strategies accumulate the wrapped sum *)

Lemma accumulate_sum (s : strategy) (TA TO : ap_type) (size : N) (w : list Z) :
  s <> Max ->
  accumulate (instantiate s TA TO size) w = Some (cast TA (window_sum w)).
Proof.
  intros Hs. destruct s; [congruence | | |]; unfold accumulate; cbn [instantiate op_init op_pool option_map];
    unfold AvgPoolFunction.init, AccPoolFunction.init, QuantAvgPoolFunction.init,
      PoolFunction.init; rewrite cast_zero; f_equal; apply fold_add_from_zero.
Qed.

Lemma in_range_between (T : ap_type) (x y : Z) :
  in_range T y = true -> 0 <= x <= y -> in_range T x = true.
Proof.
  intros Hy Hx. apply in_range_iff in Hy. apply in_range_iff.
  pose proof (min_value_nonpos T). lia.
Qed.

(* ================================================================== *)
(** ** Properties of the specification *)

(** C1.  Average strategy: for a non-zero [size], [activate(accu)] returns
    the quotient [accu / size] truncated toward zero, converted to the
    output type: the magnitude of the quotient is the floor of
    [|accu| / size], its sign follows [accu], and for a negative [accu]
    that [size] does not divide it is one above the floor.  In particular,
    over signed types, [activate(-3)] with [size = 2] returns [-1], whereas
    the floor of [-3 / 2] is [-2]. *)
Theorem avg_activate_truncates :
  (forall (TA TO : ap_type) (size : N) (accu : Z),
      in_range TA accu = true -> size <> 0%N ->
      exists q : Z,
        AvgPoolFunction.activate TA TO size accu = Some (cast TO q)
        /\ Z.abs q = Z.abs accu / Z.of_N size
        /\ (0 <= accu -> 0 <= q)
        /\ (accu <= 0 -> q <= 0)
        /\ (accu < 0 -> accu mod Z.of_N size <> 0 -> q = accu / Z.of_N size + 1))
  /\ (forall WA WO : positive,
        (3 <= WA)%positive ->
        in_range (ap_int WA) (-3) = true
        /\ AvgPoolFunction.activate (ap_int WA) (ap_int WO) 2 (-3) = Some (-1))
  /\ -3 / 2 = -2.
Proof.
  split; [| split].
  - intros TA TO size accu Ha Hs.
    assert (Hn : 0 < Z.of_N size) by lia.
    exists (Z.quot accu (Z.of_N size)).
    destruct (quot_truncates accu (Z.of_N size) Hn) as (Habs & Hpos & Hneg).
    unfold AvgPoolFunction.activate. rewrite ap_div_nonzero by assumption.
    repeat split; try assumption.
    intros Hlt Hmod. apply quot_above_floor; assumption.
  - intros WA WO HW.
    assert (Hin : in_range (ap_int WA) (-3) = true).
    { apply in_range_iff. unfold max_value. rewrite (modulus_half (ap_int WA)), min_value_signed.
      change (bits (ap_int WA)) with (Z.pos WA).
      assert (2 ^ 2 <= 2 ^ (Z.pos WA - 1)) by (apply Z.pow_le_mono_r; lia).
      change (2 ^ 2) with 4 in *. lia. }
    split; [exact Hin |].
    unfold AvgPoolFunction.activate. rewrite ap_div_nonzero by (assumption || discriminate).
    change (Z.quot (-3) (Z.of_N 2)) with (-1). cbn [option_map].
    rewrite cast_minus_one_signed. reflexivity.
  - reflexivity.
Qed.

Lemma avg_activate_truncates_witness :
  exists q : Z,
    AvgPoolFunction.activate (ap_int 8) (ap_int 8) 2 (-3) = Some (cast (ap_int 8) q)
    /\ Z.abs q = Z.abs (-3) / Z.of_N 2
    /\ (0 <= -3 -> 0 <= q)
    /\ (-3 <= 0 -> q <= 0)
    /\ (-3 < 0 -> (-3) mod Z.of_N 2 <> 0 -> q = -3 / Z.of_N 2 + 1).
Proof.
  apply (proj1 avg_activate_truncates (ap_int 8) (ap_int 8) 2%N (-3)).
  - reflexivity.
  - lia.
Defined.

(** C5.  Quantized-Average strategy: [activate(accu)] returns [accu]
    shifted right by [size] bits, converted to the output type; [size] is
    a shift amount, not an element count.  The window [4, 8, 12, 16] with
    [size = 2] accumulates to [40] and [activate] returns [40 >> 2 = 10];
    with the element count [4] as [size] the result would be
    [40 >> 4 = 2]. *)
Theorem quant_avg_activate_shifts :
  (forall (TA TO : ap_type) (size : N) (accu : Z),
      in_range TA accu = true ->
      QuantAvgPoolFunction.activate TA TO size accu
        = cast TO (Z.shiftr accu (Z.of_N size)))
  /\ (forall TA TO : ap_type,
        in_range TA 40 = true -> in_range TO 10 = true ->
        accumulate (instantiate QuantAverage TA TO 2) [4; 8; 12; 16] = Some 40
        /\ QuantAvgPoolFunction.activate TA TO 2 40 = 10
        /\ reduce (instantiate QuantAverage TA TO 2) [4; 8; 12; 16] = Some 10)
  /\ reduce (instantiate QuantAverage (ap_int 8) (ap_int 8) 4) [4; 8; 12; 16] = Some 2.
Proof.
  split; [| split].
  - intros TA TO size accu Ha. unfold QuantAvgPoolFunction.activate.
    rewrite ap_shr_floor by assumption. rewrite Z.shiftr_div_pow2 by lia. reflexivity.
  - intros TA TO H40 H10.
    assert (Hacc : accumulate (instantiate QuantAverage TA TO 2) [4; 8; 12; 16] = Some 40).
    { rewrite accumulate_sum by discriminate. change (window_sum [4; 8; 12; 16]) with 40.
      rewrite cast_id by assumption. reflexivity. }
    assert (Hact : QuantAvgPoolFunction.activate TA TO 2 40 = 10).
    { unfold QuantAvgPoolFunction.activate. rewrite ap_shr_floor by assumption.
      change (40 / 2 ^ Z.of_N 2) with 10. apply cast_id. assumption. }
    repeat split; try assumption.
    unfold reduce. rewrite Hacc. cbn [instantiate op_activate]. rewrite Hact. reflexivity.
  - reflexivity.
Qed.

Lemma quant_avg_activate_shifts_witness :
  accumulate (instantiate QuantAverage (ap_int 8) (ap_uint 4) 2) [4; 8; 12; 16] = Some 40
  /\ QuantAvgPoolFunction.activate (ap_int 8) (ap_uint 4) 2 40 = 10
  /\ reduce (instantiate QuantAverage (ap_int 8) (ap_uint 4) 2) [4; 8; 12; 16] = Some 10.
Proof.
  apply (proj1 (proj2 quant_avg_activate_shifts) (ap_int 8) (ap_uint 4)); reflexivity.
Defined.

(** Two values of a type that differ by a multiple of its modulus are
    equal. *)
Lemma in_range_congruent_eq (T : ap_type) (x y : Z) :
  in_range T x = true -> in_range T y = true ->
  (x - y) mod modulus T = 0 -> x = y.
Proof.
  intros Hx Hy Hm. apply in_range_iff in Hx. apply in_range_iff in Hy.
  unfold max_value in Hx, Hy. pose proof (modulus_pos T) as HM.
  apply Z.mod_divide in Hm; [| lia]. destruct Hm as [k Hk].
  assert (Hk0 : k = 0).
  { destruct (Z.lt_trichotomy k 0) as [Hlt | [Heq | Hgt]]; [| exact Heq |].
    - assert (k * modulus T <= - modulus T) by nia. lia.
    - assert (modulus T <= k * modulus T) by nia. lia. }
  subst k. lia.
Qed.

Example quant_activate_wraps_output :
  QuantAvgPoolFunction.activate (ap_int 8) (ap_uint 4) 1 (-3) = 14.
Proof. reflexivity. Qed.

(** C10.  Quantized-Average strategy over a signed accumulator type: the
    right shift of [activate] is arithmetic, so the shifted value is the
    floor of [accu / 2^size]; for a negative [accu] it is negative and,
    when [2^size] does not divide [accu], one below the quotient truncated
    toward zero that the Average strategy computes for the divisor
    [2^size].  The shifted value is then converted to [TO]: the output is
    the one value of [TO] that differs from the shifted value by a
    multiple of the modulus of [TO]; it is the shifted value itself when
    that is a value of [TO], and another value otherwise. *)
Theorem quant_avg_activate_floor :
  forall (WA : positive) (TO : ap_type) (size : N) (accu : Z),
    in_range (ap_int WA) accu = true ->
    let q := accu / 2 ^ Z.of_N size in
    QuantAvgPoolFunction.activate (ap_int WA) TO size accu = cast TO q
    /\ q * 2 ^ Z.of_N size <= accu < (q + 1) * 2 ^ Z.of_N size
    /\ (accu < 0 -> q < 0)
    /\ (accu < 0 -> accu mod 2 ^ Z.of_N size <> 0 ->
        q = Z.quot accu (2 ^ Z.of_N size) - 1
        /\ AvgPoolFunction.activate (ap_int WA) TO (2 ^ size)%N accu
             = Some (cast TO (q + 1)))
    /\ (cast TO q - q) mod modulus TO = 0
    /\ (in_range TO q = true ->
        QuantAvgPoolFunction.activate (ap_int WA) TO size accu = q)
    /\ in_range TO (QuantAvgPoolFunction.activate (ap_int WA) TO size accu) = true
    /\ (QuantAvgPoolFunction.activate (ap_int WA) TO size accu - q) mod modulus TO = 0
    /\ (forall r : Z,
          in_range TO r = true -> (r - q) mod modulus TO = 0 ->
          QuantAvgPoolFunction.activate (ap_int WA) TO size accu = r)
    /\ (in_range TO q = false ->
        QuantAvgPoolFunction.activate (ap_int WA) TO size accu <> q).
Proof.
  intros WA TO size accu Ha q.
  pose proof (pow2_pos size) as Hp.
  pose proof (floor_bounds accu (2 ^ Z.of_N size) Hp) as Hfl. fold q in Hfl.
  assert (Hact : QuantAvgPoolFunction.activate (ap_int WA) TO size accu = cast TO q).
  { unfold QuantAvgPoolFunction.activate. rewrite ap_shr_floor by assumption. reflexivity. }
  assert (Hin : in_range TO (QuantAvgPoolFunction.activate (ap_int WA) TO size accu) = true)
    by (rewrite Hact; apply cast_in_range).
  assert (Hcg : (QuantAvgPoolFunction.activate (ap_int WA) TO size accu - q)
                  mod modulus TO = 0)
    by (rewrite Hact; apply cast_diff).
  split; [exact Hact |]. split; [exact Hfl |].
  split; [| split; [| split; [| split; [| split; [| split; [| split]]]]]].
  - intros Hneg. nia.
  - intros Hneg Hmod.
    pose proof (quot_above_floor accu (2 ^ Z.of_N size) Hp Hneg Hmod) as Hq. fold q in Hq.
    split; [lia |].
    unfold AvgPoolFunction.activate.
    assert (Hnz : (2 ^ size)%N <> 0%N) by (apply N.pow_nonzero; discriminate).
    rewrite ap_div_nonzero by assumption.
    rewrite N2Z.inj_pow. change (Z.of_N 2) with 2. rewrite Hq. reflexivity.
  - apply cast_diff.
  - intros Hq. rewrite Hact. apply cast_id. exact Hq.
  - exact Hin.
  - exact Hcg.
  - intros r Hr Hrq. apply (in_range_congruent_eq TO); try assumption.
    pose proof (modulus_pos TO) as HM.
    apply Z.mod_divide in Hcg; [| lia]. apply Z.mod_divide in Hrq; [| lia].
    apply Z.mod_divide; [lia |].
    destruct Hcg as [k1 Hk1]. destruct Hrq as [k2 Hk2].
    exists (k1 - k2). lia.
  - intros Hq Heq. rewrite Heq in Hin. congruence.
Qed.

Lemma quant_avg_activate_floor_witness :
  let q := -3 / 2 ^ Z.of_N 1 in
  QuantAvgPoolFunction.activate (ap_int 8) (ap_uint 4) 1 (-3) = cast (ap_uint 4) q
  /\ q * 2 ^ Z.of_N 1 <= -3 < (q + 1) * 2 ^ Z.of_N 1
  /\ (-3 < 0 -> q < 0)
  /\ (-3 < 0 -> (-3) mod 2 ^ Z.of_N 1 <> 0 ->
      q = Z.quot (-3) (2 ^ Z.of_N 1) - 1
      /\ AvgPoolFunction.activate (ap_int 8) (ap_uint 4) (2 ^ 1)%N (-3)
           = Some (cast (ap_uint 4) (q + 1)))
  /\ (cast (ap_uint 4) q - q) mod modulus (ap_uint 4) = 0
  /\ (in_range (ap_uint 4) q = true ->
      QuantAvgPoolFunction.activate (ap_int 8) (ap_uint 4) 1 (-3) = q)
  /\ in_range (ap_uint 4) (QuantAvgPoolFunction.activate (ap_int 8) (ap_uint 4) 1 (-3)) = true
  /\ (QuantAvgPoolFunction.activate (ap_int 8) (ap_uint 4) 1 (-3) - q)
       mod modulus (ap_uint 4) = 0
  /\ (forall r : Z,
        in_range (ap_uint 4) r = true -> (r - q) mod modulus (ap_uint 4) = 0 ->
        QuantAvgPoolFunction.activate (ap_int 8) (ap_uint 4) 1 (-3) = r)
  /\ (in_range (ap_uint 4) q = false ->
      QuantAvgPoolFunction.activate (ap_int 8) (ap_uint 4) 1 (-3) <> q).
Proof.
  apply (quant_avg_activate_floor 8 (ap_uint 4) 1%N (-3)). reflexivity.
Defined.

(* ------------------------------------------------------------------ *)
(** *** Laws of [pool] *)

Lemma add_pool_comm (T : ap_type) (x y : Z) : cast T (x + y) = cast T (y + x).
Proof. f_equal. lia. Qed.

Lemma add_pool_assoc (T : ap_type) (x y z : Z) :
  cast T (x + cast T (y + z)) = cast T (cast T (x + y) + z).
Proof. rewrite cast_add_r, cast_add_l. f_equal. lia. Qed.

Lemma op_pool_comm (s : strategy) (TA TO : ap_type) (size : N) (x y : Z) :
  op_pool (instantiate s TA TO size) x y = op_pool (instantiate s TA TO size) y x.
Proof.
  destruct s; cbn [instantiate op_pool];
    unfold MaxPoolFunction.pool, AvgPoolFunction.pool, AccPoolFunction.pool,
      QuantAvgPoolFunction.pool, comp.max, comp.add, ap_add.
  - apply Z.max_comm.
  - apply add_pool_comm.
  - apply add_pool_comm.
  - apply add_pool_comm.
Qed.

Lemma op_pool_assoc (s : strategy) (TA TO : ap_type) (size : N) (x y z : Z) :
  op_pool (instantiate s TA TO size) x (op_pool (instantiate s TA TO size) y z)
  = op_pool (instantiate s TA TO size) (op_pool (instantiate s TA TO size) x y) z.
Proof.
  destruct s; cbn [instantiate op_pool];
    unfold MaxPoolFunction.pool, AvgPoolFunction.pool, AccPoolFunction.pool,
      QuantAvgPoolFunction.pool, comp.max, comp.add, ap_add.
  - apply Z.max_assoc.
  - apply add_pool_assoc.
  - apply add_pool_assoc.
  - apply add_pool_assoc.
Qed.

(** C3.  For each of the four strategies [pool] is commutative and
    associative on the accumulator type, so a window (empty or not) and
    any permutation of it fold to the same accumulator, from [init()] as
    from any other start value. *)
Theorem pool_order_independent :
  forall (s : strategy) (TA TO : ap_type) (size : N),
    let F := instantiate s TA TO size in
    (forall x y : Z, op_pool F x y = op_pool F y x)
    /\ (forall x y z : Z, op_pool F x (op_pool F y z) = op_pool F (op_pool F x y) z)
    /\ (forall (w w' : list Z) (a : Z),
          Permutation w w' -> fold_pool (op_pool F) w a = fold_pool (op_pool F) w' a)
    /\ (forall w w' : list Z,
          Permutation w w' -> accumulate F w = accumulate F w').
Proof.
  intros s TA TO size F.
  assert (Hc : forall x y : Z, op_pool F x y = op_pool F y x)
    by (intros; apply op_pool_comm).
  assert (Ha : forall x y z : Z, op_pool F x (op_pool F y z) = op_pool F (op_pool F x y) z)
    by (intros; apply op_pool_assoc).
  repeat split; try assumption.
  - intros w w' a Hp. apply fold_pool_permutation; assumption.
  - intros w w' Hp. unfold accumulate. destruct (op_init F) as [a0 |]; [| reflexivity].
    cbn [option_map]. f_equal. apply fold_pool_permutation; assumption.
Qed.

(** C6.  Average strategy: folding a window from [init()] accumulates the
    sum of its elements (wrapped to the accumulator type, hence the sum
    itself when that fits) and [activate] divides the accumulator by
    [size].  The window [2, 4, 6, 8] with [size = 4] accumulates to [20]
    and [activate] returns [5]. *)
Theorem avg_reduce_divides_sum :
  (forall (TA TO : ap_type) (size : N) (window : list Z),
      size <> 0%N ->
      accumulate (instantiate Average TA TO size) window
        = Some (cast TA (window_sum window))
      /\ reduce (instantiate Average TA TO size) window
           = Some (cast TO (Z.quot (cast TA (window_sum window)) (Z.of_N size)))
      /\ (in_range TA (window_sum window) = true ->
          accumulate (instantiate Average TA TO size) window = Some (window_sum window)
          /\ reduce (instantiate Average TA TO size) window
               = Some (cast TO (Z.quot (window_sum window) (Z.of_N size)))))
  /\ (forall TA TO : ap_type,
        in_range TA 20 = true -> in_range TO 5 = true ->
        accumulate (instantiate Average TA TO 4) [2; 4; 6; 8] = Some 20
        /\ AvgPoolFunction.activate TA TO 4 20 = Some 5
        /\ reduce (instantiate Average TA TO 4) [2; 4; 6; 8] = Some 5).
Proof.
  assert (Hgen : forall (TA TO : ap_type) (size : N) (window : list Z),
             size <> 0%N ->
             accumulate (instantiate Average TA TO size) window
               = Some (cast TA (window_sum window))
             /\ reduce (instantiate Average TA TO size) window
                  = Some (cast TO (Z.quot (cast TA (window_sum window)) (Z.of_N size)))).
  { intros TA TO size window Hs.
    pose proof (accumulate_sum Average TA TO size window ltac:(discriminate)) as Hacc.
    split; [exact Hacc |].
    unfold reduce. rewrite Hacc. cbn [instantiate op_activate].
    unfold AvgPoolFunction.activate.
    rewrite ap_div_nonzero by (apply cast_in_range || assumption). reflexivity. }
  split.
  - intros TA TO size window Hs. destruct (Hgen TA TO size window Hs) as [Hacc Hred].
    split; [exact Hacc | split; [exact Hred |]].
    intros Hin. rewrite Hacc, Hred, cast_id by assumption. split; reflexivity.
  - intros TA TO H20 H5.
    destruct (Hgen TA TO 4%N [2; 4; 6; 8] ltac:(discriminate)) as [Hacc Hred].
    change (window_sum [2; 4; 6; 8]) with 20 in *. rewrite (cast_id TA 20 H20) in *.
    change (Z.quot 20 (Z.of_N 4)) with 5 in Hred. rewrite (cast_id TO 5 H5) in Hred.
    repeat split; try assumption.
    unfold AvgPoolFunction.activate. rewrite ap_div_nonzero by (assumption || discriminate).
    change (Z.quot 20 (Z.of_N 4)) with 5. cbn [option_map]. rewrite cast_id by assumption.
    reflexivity.
Qed.

Lemma avg_reduce_divides_sum_witness :
  accumulate (instantiate Average (ap_int 8) (ap_uint 3) 4) [2; 4; 6; 8] = Some 20
  /\ AvgPoolFunction.activate (ap_int 8) (ap_uint 3) 4 20 = Some 5
  /\ reduce (instantiate Average (ap_int 8) (ap_uint 3) 4) [2; 4; 6; 8] = Some 5.
Proof.
  apply (proj2 avg_reduce_divides_sum (ap_int 8) (ap_uint 3)); reflexivity.
Defined.

(** C7.  Accumulate strategy: [activate] is the identity on the
    accumulator, so the output of a window is the sum of its elements
    without scaling (wrapped to the accumulator type, hence the sum itself
    when that fits).  The window [1, 2, 3, 4] accumulates to [10] and
    [activate] returns [10]. *)
Theorem acc_activate_identity :
  (forall (TA : ap_type) (a : Z), AccPoolFunction.activate TA a = a)
  /\ (forall (TA TO : ap_type) (size : N) (window : list Z),
        reduce (instantiate Accumulate TA TO size) window
          = Some (cast TA (window_sum window))
        /\ (in_range TA (window_sum window) = true ->
            reduce (instantiate Accumulate TA TO size) window = Some (window_sum window)))
  /\ (forall (TA TO : ap_type) (size : N),
        in_range TA 10 = true ->
        accumulate (instantiate Accumulate TA TO size) [1; 2; 3; 4] = Some 10
        /\ reduce (instantiate Accumulate TA TO size) [1; 2; 3; 4] = Some 10).
Proof.
  assert (Hgen : forall (TA TO : ap_type) (size : N) (window : list Z),
             reduce (instantiate Accumulate TA TO size) window
               = Some (cast TA (window_sum window))).
  { intros TA TO size window. unfold reduce.
    rewrite accumulate_sum by discriminate. reflexivity. }
  split; [reflexivity | split].
  - intros TA TO size window. split; [apply Hgen |].
    intros Hin. rewrite Hgen, cast_id by assumption. reflexivity.
  - intros TA TO size H10. split.
    + rewrite accumulate_sum by discriminate.
      change (window_sum [1; 2; 3; 4]) with 10. rewrite cast_id by assumption. reflexivity.
    + rewrite Hgen. change (window_sum [1; 2; 3; 4]) with 10.
      rewrite cast_id by assumption. reflexivity.
Qed.

Lemma acc_activate_identity_witness :
  accumulate (instantiate Accumulate (ap_uint 4) (ap_uint 4) 4) [1; 2; 3; 4] = Some 10
  /\ reduce (instantiate Accumulate (ap_uint 4) (ap_uint 4) 4) [1; 2; 3; 4] = Some 10.
Proof.
  apply (proj2 (proj2 acc_activate_identity) (ap_uint 4) (ap_uint 4) 4%N). reflexivity.
Defined.

(* ------------------------------------------------------------------ *)
(** *** The Max strategy on a window *)

(** Over an unsigned type, or a signed type of at most 32 bits, a non-empty
    window reduces to the maximum of its elements. *)
Lemma max_reduce_narrow (T TO : ap_type) (size : N) (x : Z) (rest : list Z) :
  narrow T = true -> window_of T (x :: rest) = true ->
  accumulate (instantiate Max T TO size) (x :: rest) = Some (window_max x rest)
  /\ reduce (instantiate Max T TO size) (x :: rest) = Some (window_max x rest).
Proof.
  intros Hn Hw. apply window_of_cons in Hw. destruct Hw as [Hx _].
  apply in_range_iff in Hx.
  assert (Hacc : accumulate (instantiate Max T TO size) (x :: rest)
                 = Some (window_max x rest)).
  { unfold accumulate. cbn [instantiate op_init op_pool].
    rewrite max_init_narrow by assumption. cbn [option_map]. f_equal.
    unfold MaxPoolFunction.pool, comp.max.
    change (fun input accu : Z => Z.max input accu) with Z.max.
    rewrite fold_max_window. apply window_max_start. lia. }
  split; [exact Hacc |]. unfold reduce. rewrite Hacc. reflexivity.
Qed.

Lemma max_reduce_narrow_permutation (T TO : ap_type) (size : N) (x : Z) (rest w' : list Z) :
  narrow T = true -> window_of T (x :: rest) = true -> Permutation (x :: rest) w' ->
  exists m : Z,
    reduce (instantiate Max T TO size) w' = Some m /\ is_maximum m (x :: rest).
Proof.
  intros Hn Hw Hp. exists (window_max x rest). split.
  - destruct (max_reduce_narrow T TO size x rest Hn Hw) as [Hacc Hred].
    rewrite <- Hred. unfold reduce, accumulate.
    destruct (op_init (instantiate Max T TO size)) as [a0 |]; [| reflexivity].
    cbn [option_map]. f_equal. symmetry.
    apply fold_pool_permutation; [intros; apply op_pool_comm | intros; apply op_pool_assoc | exact Hp].
  - apply window_max_is_maximum.
Qed.

Example max_window_int8 :
  MaxPoolFunction.init (ap_int 8) = Some (-128)
  /\ accumulate (instantiate Max (ap_int 8) (ap_int 8) 4) [3; -5; 9; 2] = Some 9
  /\ reduce (instantiate Max (ap_int 8) (ap_int 8) 4) [3; -5; 9; 2] = Some 9.
Proof. repeat split. Qed.

(** C2.  Max strategy, [init()]: the shift [1<<(T::width-1)] is carried out
    on [int].  For a signed type of 33 bits or more the shift count is not
    smaller than the width of [int] and the shift is undefined; whatever
    [int] it left, its conversion to the type is not [-(2^(W-1))].  (For
    signed types up to 32 bits and for unsigned types [init()] is the least
    value: [max_init_signed_narrow], [max_init_unsigned].) *)
Theorem max_init_wide_signed_undefined :
  MaxPoolFunction.init (ap_int 33) = None
  /\ MaxPoolFunction.init (ap_int 64) = None
  /\ (forall (W : positive) (v : Z),
        (33 <= W)%positive -> in_range int32 v = true ->
        MaxPoolFunction.init (ap_int W) = None
        /\ cast (ap_int W) v <> - 2 ^ (Z.pos W - 1)).
Proof.
  split; [reflexivity | split; [reflexivity |]].
  intros W v HW Hv. split; [apply max_init_signed_wide; assumption |].
  destruct (int_above_wide_min W v HW Hv) as [Hc Hlt].
  rewrite min_value_signed in Hlt. lia.
Qed.

Lemma max_init_wide_signed_undefined_witness :
  MaxPoolFunction.init (ap_int 40) = None
  /\ cast (ap_int 40) 0 <> - 2 ^ (Z.pos 40 - 1).
Proof.
  apply (proj2 (proj2 max_init_wide_signed_undefined) 40%positive 0); [lia | reflexivity].
Defined.

(** C4.  Max strategy on a window over a signed type of 33 bits or more:
    [init()] is undefined, so the reduction has no defined result; with
    whatever [int] the shift of [init()] left as start value, the window
    holding only the least value of the type folds to that [int] and not to
    its maximum.  (Over narrower signed types and over unsigned types the
    reduction yields the maximum in any order: [max_reduce_narrow],
    [max_reduce_narrow_permutation]; the window [3, -5, 9, 2] over 8 bits:
    [max_window_int8].) *)
Theorem max_reduce_wide_signed_undefined :
  window_of (ap_int 40) [-5] = true
  /\ reduce (instantiate Max (ap_int 40) (ap_int 40) 1) [-5] = None
  /\ MaxPoolFunction.activate (ap_int 40)
       (fold_pool (MaxPoolFunction.pool (ap_int 40)) [-5] (cast (ap_int 40) 0)) = 0
  /\ (forall (W : positive) (v : Z),
        (33 <= W)%positive -> in_range int32 v = true ->
        reduce (instantiate Max (ap_int W) (ap_int W) 1) [min_value (ap_int W)] = None
        /\ MaxPoolFunction.activate (ap_int W)
             (fold_pool (MaxPoolFunction.pool (ap_int W)) [min_value (ap_int W)]
                (cast (ap_int W) v)) = v
        /\ v <> min_value (ap_int W)).
Proof.
  split; [reflexivity | split; [reflexivity | split; [reflexivity |]]].
  intros W v HW Hv.
  destruct (int_above_wide_min W v HW Hv) as [Hc Hlt].
  split; [| split].
  - unfold reduce, accumulate. cbn [instantiate op_init].
    rewrite max_init_signed_wide by assumption. reflexivity.
  - rewrite Hc. unfold MaxPoolFunction.activate, MaxPoolFunction.pool, comp.max.
    rewrite fold_pool_cons, fold_pool_nil. lia.
  - lia.
Qed.

Lemma max_reduce_wide_signed_undefined_witness :
  reduce (instantiate Max (ap_int 64) (ap_int 64) 1) [min_value (ap_int 64)] = None
  /\ MaxPoolFunction.activate (ap_int 64)
       (fold_pool (MaxPoolFunction.pool (ap_int 64)) [min_value (ap_int 64)]
          (cast (ap_int 64) 256)) = 256
  /\ 256 <> min_value (ap_int 64).
Proof.
  apply (proj2 (proj2 (proj2 max_reduce_wide_signed_undefined)) 64%positive 256);
    [lia | reflexivity].
Defined.

(* ------------------------------------------------------------------ *)
(** *** Identity law and totality *)

Lemma add_zero_identity (T : ap_type) (x : Z) :
  in_range T x = true -> cast T (x + cast T 0) = x /\ cast T (cast T 0 + x) = x.
Proof.
  intros Hx. rewrite cast_zero, Z.add_0_r, Z.add_0_l, cast_id by assumption.
  split; reflexivity.
Qed.

(** C8.  Identity law.  For every value [x] of the accumulator type the
    three sum-based strategies satisfy
    [pool(x, init()) == pool(init(), x) == x].  For the Max strategy
    [pool(x, a) == x] whenever [x >= a], in particular for the value of
    [init()]; over an unsigned type or a signed type of at most 32 bits
    [init()] is below every value of the type, so the law holds for every
    [x]. *)
Theorem pool_identity_law :
  (forall (TA : ap_type) (x : Z),
      in_range TA x = true ->
      (AvgPoolFunction.pool TA x (AvgPoolFunction.init TA) = x
       /\ AvgPoolFunction.pool TA (AvgPoolFunction.init TA) x = x)
      /\ (AccPoolFunction.pool TA x (AccPoolFunction.init TA) = x
          /\ AccPoolFunction.pool TA (AccPoolFunction.init TA) x = x)
      /\ (QuantAvgPoolFunction.pool TA x (QuantAvgPoolFunction.init TA) = x
          /\ QuantAvgPoolFunction.pool TA (QuantAvgPoolFunction.init TA) x = x))
  /\ (forall (T : ap_type) (x a : Z), a <= x -> MaxPoolFunction.pool T x a = x)
  /\ (forall (T : ap_type) (x a0 : Z),
        MaxPoolFunction.init T = Some a0 -> a0 <= x -> MaxPoolFunction.pool T x a0 = x)
  /\ (forall (T : ap_type) (x : Z),
        narrow T = true -> in_range T x = true ->
        exists a0 : Z,
          MaxPoolFunction.init T = Some a0 /\ a0 <= x
          /\ MaxPoolFunction.pool T x a0 = x /\ MaxPoolFunction.pool T a0 x = x).
Proof.
  split; [| split; [| split]].
  - intros TA x Hx.
    unfold AvgPoolFunction.pool, AccPoolFunction.pool, QuantAvgPoolFunction.pool,
      AvgPoolFunction.init, AccPoolFunction.init, QuantAvgPoolFunction.init,
      PoolFunction.init, comp.add, ap_add.
    pose proof (add_zero_identity TA x Hx) as H. tauto.
  - intros T x a Ha. unfold MaxPoolFunction.pool, comp.max. lia.
  - intros T x a0 _ Ha. unfold MaxPoolFunction.pool, comp.max. lia.
  - intros T x Hn Hx. exists (min_value T). apply in_range_iff in Hx.
    unfold MaxPoolFunction.pool, comp.max.
    split; [apply max_init_narrow; assumption |]. repeat split; lia.
Qed.

Lemma pool_identity_law_witness :
  (AvgPoolFunction.pool (ap_int 8) (-7) (AvgPoolFunction.init (ap_int 8)) = -7
   /\ AvgPoolFunction.pool (ap_int 8) (AvgPoolFunction.init (ap_int 8)) (-7) = -7)
  /\ (AccPoolFunction.pool (ap_int 8) (-7) (AccPoolFunction.init (ap_int 8)) = -7
      /\ AccPoolFunction.pool (ap_int 8) (AccPoolFunction.init (ap_int 8)) (-7) = -7)
  /\ (QuantAvgPoolFunction.pool (ap_int 8) (-7) (QuantAvgPoolFunction.init (ap_int 8)) = -7
      /\ QuantAvgPoolFunction.pool (ap_int 8) (QuantAvgPoolFunction.init (ap_int 8)) (-7) = -7).
Proof.
  apply (proj1 pool_identity_law (ap_int 8) (-7)). reflexivity.
Defined.

(** C9, as the code has it: the Average strategy instantiated with
    [size = 0] divides by zero in [activate]; so it is not the case that
    [activate] has a result for every strategy, every [size] and every
    accumulator value. *)
Lemma avg_activate_size_zero_fails :
  in_range (ap_int 8) 5 = true
  /\ AvgPoolFunction.activate (ap_int 8) (ap_int 8) 0 5 = None
  /\ ~ (forall (s : strategy) (TA TO : ap_type) (size : N) (accu : Z),
          in_range TA accu = true ->
          exists r : Z, op_activate (instantiate s TA TO size) accu = Some r).
Proof.
  split; [reflexivity | split; [reflexivity |]].
  intros H. destruct (H Average (ap_int 8) (ap_int 8) 0%N 5 eq_refl) as [r Hr].
  discriminate Hr.
Qed.

(** C9, amended.  [init] returns a value of the accumulator type for the
    three sum-based strategies, and for the Max strategy over unsigned
    types and signed types of at most 32 bits; [pool] returns a value of
    the accumulator type for every strategy and all inputs; [activate]
    returns a value of the output type for the Max, Accumulate and
    Quantized-Average strategies for every [size], and for the Average
    strategy for every [size] other than zero, where it has no result. *)
Theorem operations_total_nonzero_size :
  (forall (s : strategy) (TA TO : ap_type) (size : N),
      (s = Max -> narrow TA = true) ->
      exists a0 : Z,
        op_init (instantiate s TA TO size) = Some a0 /\ in_range TA a0 = true)
  /\ (forall (s : strategy) (TA TO : ap_type) (size : N) (x a : Z),
        in_range TA x = true -> in_range TA a = true ->
        in_range TA (op_pool (instantiate s TA TO size) x a) = true)
  /\ (forall (s : strategy) (TA TO : ap_type) (size : N) (a : Z),
        (s = Average -> size <> 0%N) -> in_range TA a = true ->
        exists r : Z,
          op_activate (instantiate s TA TO size) a = Some r
          /\ in_range (output_type s TA TO) r = true)
  /\ (forall (TA TO : ap_type) (a : Z),
        op_activate (instantiate Average TA TO 0) a = None).
Proof.
  split; [| split; [| split]].
  - intros s TA TO size Hmax. destruct s; cbn [instantiate op_init].
    + exists (min_value TA). split; [apply max_init_narrow, Hmax; reflexivity |].
      apply in_range_min.
    + exists 0. unfold AvgPoolFunction.init, PoolFunction.init. rewrite cast_zero.
      split; [reflexivity | apply in_range_zero].
    + exists 0. unfold AccPoolFunction.init, PoolFunction.init. rewrite cast_zero.
      split; [reflexivity | apply in_range_zero].
    + exists 0. unfold QuantAvgPoolFunction.init, PoolFunction.init. rewrite cast_zero.
      split; [reflexivity | apply in_range_zero].
  - intros s TA TO size x a Hx Ha. destruct s; cbn [instantiate op_pool];
      unfold MaxPoolFunction.pool, AvgPoolFunction.pool, AccPoolFunction.pool,
        QuantAvgPoolFunction.pool, comp.max, comp.add, ap_add;
      try apply cast_in_range.
    destruct (Z.max_spec x a) as [[_ ->] | [_ ->]]; assumption.
  - intros s TA TO size a Hs Ha. destruct s; cbn [instantiate op_activate output_type].
    + exists a. split; [reflexivity | exact Ha].
    + exists (cast TO (Z.quot a (Z.of_N size))). split; [| apply cast_in_range].
      unfold AvgPoolFunction.activate.
      rewrite ap_div_nonzero by (assumption || (apply Hs; reflexivity)). reflexivity.
    + exists a. split; [reflexivity | exact Ha].
    + eexists. split; [reflexivity |]. unfold QuantAvgPoolFunction.activate.
      apply cast_in_range.
  - intros TA TO a. reflexivity.
Qed.

Lemma operations_total_nonzero_size_witness :
  exists r : Z,
    op_activate (instantiate Average (ap_int 8) (ap_int 8) 2) (-3) = Some r
    /\ in_range (output_type Average (ap_int 8) (ap_int 8)) r = true.
Proof.
  apply (proj1 (proj2 (proj2 operations_total_nonzero_size))
           Average (ap_int 8) (ap_int 8) 2%N (-3)).
  - lia.
  - reflexivity.
Defined.

(* ================================================================== *)
(** ** Further properties of the pool functions *)

(* ------------------------------------------------------------------ *)
(** *** Helper facts *)

Lemma window_sum_app (w1 w2 : list Z) :
  window_sum (w1 ++ w2) = window_sum w1 + window_sum w2.
Proof.
  unfold window_sum. induction w1 as [| e w1 IH]; simpl; [reflexivity |].
  rewrite IH. lia.
Qed.

Lemma window_max_ge_start (a : Z) (w : list Z) : a <= window_max a w.
Proof.
  unfold window_max. induction w as [| e w IH]; simpl; lia.
Qed.

Lemma window_max_app (a : Z) (w1 w2 : list Z) :
  window_max a (w1 ++ w2) = Z.max (window_max a w1) (window_max a w2).
Proof.
  unfold window_max. rewrite fold_right_app.
  induction w1 as [| e w1 IH]; simpl.
  - pose proof (window_max_ge_start a w2) as H. unfold window_max in H. lia.
  - rewrite IH. lia.
Qed.

(** With the accumulator type as output type the conversion of
    [activate] changes nothing. *)
Lemma avg_activate_same_type (TA : ap_type) (size : N) (accu : Z) :
  in_range TA accu = true -> size <> 0%N ->
  AvgPoolFunction.activate TA TA size accu = Some (Z.quot accu (Z.of_N size)).
Proof.
  intros Ha Hs. unfold AvgPoolFunction.activate.
  rewrite ap_div_nonzero by assumption. cbn [option_map].
  rewrite cast_id; [reflexivity |]. apply quot_in_range; [assumption | lia].
Qed.

Lemma quant_activate_same_type (TA : ap_type) (size : N) (accu : Z) :
  in_range TA accu = true ->
  QuantAvgPoolFunction.activate TA TA size accu = accu / 2 ^ Z.of_N size.
Proof.
  intros Ha. unfold QuantAvgPoolFunction.activate.
  rewrite ap_shr_floor by assumption.
  apply cast_id, floor_in_range; [assumption | apply pow2_pos].
Qed.

Lemma strategy_eq_Max (s : strategy) : s = Max \/ s <> Max.
Proof. destruct s; [left; reflexivity | right | right | right]; discriminate. Qed.

Lemma sum_pool_unfold (s : strategy) (TA TO : ap_type) (size : N) (x y : Z) :
  s <> Max -> op_pool (instantiate s TA TO size) x y = cast TA (x + y).
Proof. intros Hs. destruct s; [congruence | | |]; reflexivity. Qed.

(* ------------------------------------------------------------------ *)
(** *** The Max strategy over types of at most 32 bits *)

(** X1.  [MaxPoolFunction::init]: over an unsigned type, or a signed type
    of at most 32 bits, [init()] is the least value of the type, a value
    of the type that no value of the type is below; it is [-(2^(W-1))]
    for [ap_int<W>] and [0] for [ap_uint<W>]. *)
Theorem max_init_least_value :
  forall T : ap_type,
    narrow T = true ->
    exists m : Z,
      MaxPoolFunction.init T = Some m
      /\ in_range T m = true
      /\ (forall x : Z, in_range T x = true -> m <= x)
      /\ m = (if is_signed T then - 2 ^ (Z.pos (width T) - 1) else 0).
Proof.
  intros T Hn. exists (min_value T).
  split; [apply max_init_narrow; assumption |].
  split; [apply in_range_min |]. split.
  - intros x Hx. apply in_range_iff in Hx. lia.
  - reflexivity.
Qed.

Lemma max_init_least_value_witness :
  exists m : Z,
    MaxPoolFunction.init (ap_int 16) = Some m
    /\ in_range (ap_int 16) m = true
    /\ (forall x : Z, in_range (ap_int 16) x = true -> m <= x)
    /\ m = (if is_signed (ap_int 16) then - 2 ^ (Z.pos (width (ap_int 16)) - 1) else 0).
Proof.
  apply (max_init_least_value (ap_int 16)). reflexivity.
Defined.

(** X2.  Max strategy over an unsigned type or a signed type of at most
    32 bits: a non-empty window of values of the type, presented in any
    order, reduces to its maximum, which is an element of the window, so
    a value of the type. *)
Theorem max_reduce_is_maximum :
  forall (T TO : ap_type) (size : N) (x : Z) (rest w' : list Z),
    narrow T = true -> window_of T (x :: rest) = true ->
    Permutation (x :: rest) w' ->
    exists m : Z,
      reduce (instantiate Max T TO size) w' = Some m
      /\ In m w' /\ (forall e : Z, In e w' -> e <= m)
      /\ in_range T m = true.
Proof.
  intros T TO size x rest w' Hn Hw Hp.
  destruct (max_reduce_narrow_permutation T TO size x rest w' Hn Hw Hp)
    as (m & Hred & Hin & Hle).
  exists m. split; [exact Hred |].
  split; [apply (Permutation_in m Hp Hin) |].
  split.
  - intros e He. apply Hle. apply (Permutation_in e (Permutation_sym Hp) He).
  - unfold window_of in Hw. rewrite forallb_forall in Hw. apply Hw, Hin.
Qed.

Lemma max_reduce_is_maximum_witness :
  exists m : Z,
    reduce (instantiate Max (ap_int 8) (ap_int 8) 4) [-5; 3; 9; 2] = Some m
    /\ In m [-5; 3; 9; 2] /\ (forall e : Z, In e [-5; 3; 9; 2] -> e <= m)
    /\ in_range (ap_int 8) m = true.
Proof.
  apply (max_reduce_is_maximum (ap_int 8) (ap_int 8) 4%N 3 [-5; 9; 2] [-5; 3; 9; 2]).
  - reflexivity.
  - reflexivity.
  - apply perm_swap.
Defined.

(** X3.  The empty window reduces to [init()] passed through [activate]:
    the least value of the type for the Max strategy (over an unsigned
    type or a signed type of at most 32 bits), and [0] for the three
    sum-based strategies (for the Average strategy with a non-zero
    [size]); either is a value of the output type. *)
Theorem reduce_empty_window :
  forall (s : strategy) (TA TO : ap_type) (size : N),
    (s = Max -> narrow TA = true) -> (s = Average -> size <> 0%N) ->
    reduce (instantiate s TA TO size) []
      = Some (match s with Max => min_value TA | _ => 0 end)
    /\ in_range (output_type s TA TO)
         (match s with Max => min_value TA | _ => 0 end) = true.
Proof.
  intros s TA TO size Hmax Havg. split.
  - unfold reduce, accumulate.
    destruct s; cbn [instantiate op_init op_pool op_activate].
    + rewrite max_init_narrow by (apply Hmax; reflexivity). reflexivity.
    + unfold AvgPoolFunction.init, PoolFunction.init. rewrite cast_zero.
      cbn [option_map fold_pool fold_left]. unfold AvgPoolFunction.activate.
      assert (Hs : size <> 0%N) by (apply Havg; reflexivity).
      rewrite ap_div_nonzero by (apply in_range_zero || assumption).
      rewrite Z.quot_0_l by lia. cbn [option_map]. rewrite cast_zero. reflexivity.
    + unfold AccPoolFunction.init, PoolFunction.init. rewrite cast_zero. reflexivity.
    + unfold QuantAvgPoolFunction.init, PoolFunction.init. rewrite cast_zero.
      cbn [option_map fold_pool fold_left]. unfold QuantAvgPoolFunction.activate.
      rewrite ap_shr_floor by apply in_range_zero.
      rewrite Z.div_0_l by (pose proof (pow2_pos size); lia).
      rewrite cast_zero. reflexivity.
  - destruct s; cbn [output_type]; (apply in_range_min || apply in_range_zero).
Qed.

Lemma reduce_empty_window_witness :
  reduce (instantiate Average (ap_int 8) (ap_uint 4) 3) []
    = Some (match Average with Max => min_value (ap_int 8) | _ => 0 end)
  /\ in_range (output_type Average (ap_int 8) (ap_uint 4))
       (match Average with Max => min_value (ap_int 8) | _ => 0 end) = true.
Proof.
  apply (reduce_empty_window Average (ap_int 8) (ap_uint 4) 3%N).
  - intros H. discriminate H.
  - lia.
Defined.

(* ------------------------------------------------------------------ *)
(** *** Accumulators of split windows and of overflowing sums *)

(** X4.  For each strategy, the accumulator of a window split in two parts
    is [pool] of the accumulators of the parts, each folded from
    [init()]: partial accumulators merge with [pool] itself. *)
Theorem accumulate_append :
  forall (s : strategy) (TA TO : ap_type) (size : N) (w1 w2 : list Z),
    accumulate (instantiate s TA TO size) (w1 ++ w2)
    = match accumulate (instantiate s TA TO size) w1,
            accumulate (instantiate s TA TO size) w2 with
      | Some a1, Some a2 => Some (op_pool (instantiate s TA TO size) a1 a2)
      | _, _ => None
      end.
Proof.
  intros s TA TO size w1 w2.
  destruct (strategy_eq_Max s) as [-> | Hs].
  - unfold accumulate. cbn [instantiate op_init op_pool].
    destruct (MaxPoolFunction.init TA) as [a0 |]; [| reflexivity].
    cbn [option_map]. f_equal. unfold MaxPoolFunction.pool, comp.max.
    change (fun input accu : Z => Z.max input accu) with Z.max.
    rewrite !fold_max_window. apply window_max_app.
  - rewrite !accumulate_sum by assumption. f_equal.
    rewrite sum_pool_unfold by assumption.
    rewrite cast_add_l, cast_add_r, window_sum_app. reflexivity.
Qed.

(** X5.  The sum-based strategies never saturate: the accumulator of a
    window is a value of the accumulator type that differs from the sum of
    the elements by a multiple of [2^W], and it is the sum exactly when the
    sum is a value of the accumulator type. *)
Theorem sum_accumulate_wraps :
  forall (s : strategy) (TA TO : ap_type) (size : N) (w : list Z),
    s <> Max ->
    exists acc : Z,
      accumulate (instantiate s TA TO size) w = Some acc
      /\ in_range TA acc = true
      /\ (acc - window_sum w) mod modulus TA = 0
      /\ (acc = window_sum w <-> in_range TA (window_sum w) = true).
Proof.
  intros s TA TO size w Hs. exists (cast TA (window_sum w)).
  split; [apply accumulate_sum; assumption |].
  split; [apply cast_in_range |]. split; [apply cast_diff |].
  split.
  - intros Heq. rewrite <- Heq. apply cast_in_range.
  - apply cast_id.
Qed.

Lemma sum_accumulate_wraps_witness :
  exists acc : Z,
    accumulate (instantiate QuantAverage (ap_int 8) (ap_int 8) 1) [100; 100] = Some acc
    /\ in_range (ap_int 8) acc = true
    /\ (acc - window_sum [100; 100]) mod modulus (ap_int 8) = 0
    /\ (acc = window_sum [100; 100] <-> in_range (ap_int 8) (window_sum [100; 100]) = true).
Proof.
  apply (sum_accumulate_wraps QuantAverage (ap_int 8) (ap_int 8) 1%N [100; 100]).
  intros H. discriminate H.
Defined.

(* ------------------------------------------------------------------ *)
(** *** Averages *)

(** X6.  Quantized-Average strategy on a window of [2^size] elements whose
    sum is a value of the accumulator type: the output is the floor of the
    arithmetic mean of the elements, converted to [TO]. *)
Theorem quant_avg_floor_mean :
  forall (TA TO : ap_type) (size : N) (w : list Z),
    Z.of_nat (length w) = 2 ^ Z.of_N size ->
    in_range TA (window_sum w) = true ->
    let q := window_sum w / Z.of_nat (length w) in
    reduce (instantiate QuantAverage TA TO size) w = Some (cast TO q)
    /\ q * Z.of_nat (length w) <= window_sum w < (q + 1) * Z.of_nat (length w)
    /\ (in_range TO q = true ->
        reduce (instantiate QuantAverage TA TO size) w = Some q).
Proof.
  intros TA TO size w Hlen Hsum q.
  assert (Hred : reduce (instantiate QuantAverage TA TO size) w = Some (cast TO q)).
  { unfold reduce. rewrite accumulate_sum by discriminate.
    cbn [instantiate op_activate]. unfold QuantAvgPoolFunction.activate.
    rewrite (cast_id TA (window_sum w)) by assumption.
    rewrite ap_shr_floor by assumption.
    unfold q. rewrite Hlen. reflexivity. }
  split; [exact Hred |]. split.
  - apply floor_bounds. rewrite Hlen. apply pow2_pos.
  - intros Hq. rewrite Hred, cast_id by assumption. reflexivity.
Qed.

Lemma quant_avg_floor_mean_witness :
  let q := window_sum [-1; -2; 3; -5] / Z.of_nat (length [-1; -2; 3; -5]) in
  reduce (instantiate QuantAverage (ap_int 8) (ap_int 4) 2) [-1; -2; 3; -5]
    = Some (cast (ap_int 4) q)
  /\ q * Z.of_nat (length [-1; -2; 3; -5]) <= window_sum [-1; -2; 3; -5]
       < (q + 1) * Z.of_nat (length [-1; -2; 3; -5])
  /\ (in_range (ap_int 4) q = true ->
      reduce (instantiate QuantAverage (ap_int 8) (ap_int 4) 2) [-1; -2; 3; -5] = Some q).
Proof.
  apply (quant_avg_floor_mean (ap_int 8) (ap_int 4) 2%N [-1; -2; 3; -5]); reflexivity.
Defined.

(** X7.  On a non-negative accumulator (so on every accumulator of an
    unsigned type) the Quantized-Average strategy with shift [size] and
    the Average strategy with divisor [2^size] return the same output. *)
Theorem avg_quant_agree_nonneg :
  forall (TA TO : ap_type) (size : N) (accu : Z),
    in_range TA accu = true -> 0 <= accu ->
    AvgPoolFunction.activate TA TO (2 ^ size)%N accu
    = Some (QuantAvgPoolFunction.activate TA TO size accu).
Proof.
  intros TA TO size accu Ha Hnn.
  assert (Hnz : (2 ^ size)%N <> 0%N) by (apply N.pow_nonzero; discriminate).
  unfold AvgPoolFunction.activate, QuantAvgPoolFunction.activate.
  rewrite ap_div_nonzero by assumption. rewrite ap_shr_floor by assumption.
  rewrite N2Z.inj_pow. change (Z.of_N 2) with 2.
  rewrite Z.quot_div_nonneg by (assumption || apply pow2_pos). reflexivity.
Qed.

Lemma avg_quant_agree_nonneg_witness :
  AvgPoolFunction.activate (ap_uint 8) (ap_uint 8) (2 ^ 3)%N 203
  = Some (QuantAvgPoolFunction.activate (ap_uint 8) (ap_uint 8) 3 203).
Proof.
  apply (avg_quant_agree_nonneg (ap_uint 8) (ap_uint 8) 3%N 203); [reflexivity | lia].
Defined.

(** X8.  Average strategy with the accumulator type as output type, for a
    non-zero [size]: the output is the truncated quotient itself (the
    conversion never wraps), it lies between [0] and the accumulator, it is
    [0] when the magnitude of the accumulator is below [size], and the
    accumulator when [size] is [1]. *)
Theorem avg_activate_no_wrap :
  forall (TA : ap_type) (size : N) (accu : Z),
    in_range TA accu = true -> size <> 0%N ->
    exists q : Z,
      AvgPoolFunction.activate TA TA size accu = Some q
      /\ q = Z.quot accu (Z.of_N size)
      /\ in_range TA q = true
      /\ Z.abs q <= Z.abs accu
      /\ (Z.abs accu < Z.of_N size -> q = 0)
      /\ (size = 1%N -> q = accu).
Proof.
  intros TA size accu Ha Hs. exists (Z.quot accu (Z.of_N size)).
  assert (Hn : 0 < Z.of_N size) by lia.
  destruct (quot_truncates accu (Z.of_N size) Hn) as (Habs & _ & _).
  split; [apply avg_activate_same_type; assumption |].
  split; [reflexivity |].
  split; [apply quot_in_range; assumption |].
  split; [| split].
  - rewrite Habs. apply Z.div_le_upper_bound; [lia |].
    pose proof (Z.abs_nonneg accu). nia.
  - intros Hlt. apply Z.abs_0_iff. rewrite Habs. apply Z.div_small.
    pose proof (Z.abs_nonneg accu). lia.
  - intros ->. apply Z.quot_1_r.
Qed.

Lemma avg_activate_no_wrap_witness :
  exists q : Z,
    AvgPoolFunction.activate (ap_int 8) (ap_int 8) 3 (-128) = Some q
    /\ q = Z.quot (-128) (Z.of_N 3)
    /\ in_range (ap_int 8) q = true
    /\ Z.abs q <= Z.abs (-128)
    /\ (Z.abs (-128) < Z.of_N 3 -> q = 0)
    /\ (3%N = 1%N -> q = -128).
Proof.
  apply (avg_activate_no_wrap (ap_int 8) 3%N (-128)); [reflexivity | lia].
Defined.

(* ------------------------------------------------------------------ *)
(** *** Order, staging and sign of the averaging outputs *)

(** X9.  With the accumulator type as output type, [activate] of the
    Quantized-Average strategy and (for a non-zero [size]) of the Average
    strategy preserve the order of accumulators. *)
Theorem activate_monotone :
  forall (TA : ap_type) (size : N) (a b : Z),
    in_range TA a = true -> in_range TA b = true -> a <= b ->
    QuantAvgPoolFunction.activate TA TA size a
      <= QuantAvgPoolFunction.activate TA TA size b
    /\ (size <> 0%N ->
        exists qa qb : Z,
          AvgPoolFunction.activate TA TA size a = Some qa
          /\ AvgPoolFunction.activate TA TA size b = Some qb
          /\ qa <= qb).
Proof.
  intros TA size a b Ha Hb Hab. split.
  - rewrite !quant_activate_same_type by assumption.
    apply Z.div_le_mono; [apply pow2_pos | assumption].
  - intros Hs. exists (Z.quot a (Z.of_N size)), (Z.quot b (Z.of_N size)).
    rewrite !avg_activate_same_type by assumption.
    repeat split. apply Z.quot_le_mono; [lia | assumption].
Qed.

Lemma activate_monotone_witness :
  QuantAvgPoolFunction.activate (ap_int 8) (ap_int 8) 2 (-7)
    <= QuantAvgPoolFunction.activate (ap_int 8) (ap_int 8) 2 5
  /\ (2%N <> 0%N ->
      exists qa qb : Z,
        AvgPoolFunction.activate (ap_int 8) (ap_int 8) 2 (-7) = Some qa
        /\ AvgPoolFunction.activate (ap_int 8) (ap_int 8) 2 5 = Some qb
        /\ qa <= qb).
Proof.
  apply (activate_monotone (ap_int 8) 2%N (-7) 5); [reflexivity | reflexivity | lia].
Defined.

(** X10.  Averaging in two stages, with the accumulator type as output
    type: shifting by [s1] and then by [s2] bits is the Quantized-Average
    output for the shift [s1 + s2], and dividing by [n] and then by [m]
    (both non-zero) is the Average output for the divisor [n * m]. *)
Theorem activate_staged :
  forall (TA : ap_type) (s1 s2 n m : N) (accu : Z),
    in_range TA accu = true -> n <> 0%N -> m <> 0%N ->
    QuantAvgPoolFunction.activate TA TA s2 (QuantAvgPoolFunction.activate TA TA s1 accu)
      = QuantAvgPoolFunction.activate TA TA (s1 + s2) accu
    /\ match AvgPoolFunction.activate TA TA n accu with
       | Some q => AvgPoolFunction.activate TA TA m q
       | None => None
       end = AvgPoolFunction.activate TA TA (n * m) accu.
Proof.
  intros TA s1 s2 n m accu Ha Hn Hm. split.
  - rewrite (quant_activate_same_type TA s1 accu Ha).
    rewrite !quant_activate_same_type
      by (assumption || (apply floor_in_range; [assumption | apply pow2_pos])).
    rewrite N2Z.inj_add, Z.pow_add_r by lia.
    apply Z.div_div; pose proof (pow2_pos s1); pose proof (pow2_pos s2); lia.
  - rewrite (avg_activate_same_type TA n accu Ha Hn).
    rewrite !avg_activate_same_type
      by (assumption || lia || (apply quot_in_range; [assumption | lia])).
    rewrite N2Z.inj_mul. f_equal. apply Z.quot_quot; lia.
Qed.

Lemma activate_staged_witness :
  QuantAvgPoolFunction.activate (ap_int 8) (ap_int 8) 2
      (QuantAvgPoolFunction.activate (ap_int 8) (ap_int 8) 1 (-77))
    = QuantAvgPoolFunction.activate (ap_int 8) (ap_int 8) (1 + 2) (-77)
  /\ match AvgPoolFunction.activate (ap_int 8) (ap_int 8) 2 (-77) with
     | Some q => AvgPoolFunction.activate (ap_int 8) (ap_int 8) 3 q
     | None => None
     end = AvgPoolFunction.activate (ap_int 8) (ap_int 8) (2 * 3) (-77).
Proof.
  apply (activate_staged (ap_int 8) 1%N 2%N 2%N 3%N (-77)); [reflexivity | lia | lia].
Defined.

(** X11.  The rounding of the Average strategy is symmetric about zero:
    with the accumulator type as output type and a non-zero [size], the
    output for [-accu] is the negated output for [accu], whenever both are
    values of the accumulator type. *)
Theorem avg_activate_odd :
  forall (TA : ap_type) (size : N) (accu : Z),
    in_range TA accu = true -> in_range TA (- accu) = true -> size <> 0%N ->
    AvgPoolFunction.activate TA TA size (- accu)
    = option_map Z.opp (AvgPoolFunction.activate TA TA size accu).
Proof.
  intros TA size accu Ha Hna Hs.
  rewrite !avg_activate_same_type by assumption. cbn [option_map].
  rewrite Z.quot_opp_l by lia. reflexivity.
Qed.

Lemma avg_activate_odd_witness :
  AvgPoolFunction.activate (ap_int 8) (ap_int 8) 2 (- 3)
  = option_map Z.opp (AvgPoolFunction.activate (ap_int 8) (ap_int 8) 2 3).
Proof.
  apply (avg_activate_odd (ap_int 8) 2%N 3); [reflexivity | reflexivity | lia].
Defined.
